(** * pitch-op: arithmetic on pitches and intervals in array notation

    A shallow embedding of [index.js].  The library is untyped JavaScript, so
    the embedding keeps the fragment of the JavaScript value space that the
    code can observe on its documented inputs:

    - a slot of a pitch array is [null], [undefined] or a number;
    - a number is an integer or [NaN] (the code only adds, subtracts,
      multiplies and takes remainders, so no fraction arises from integer
      slots).  The operators compute on [Z]: they are the binary64 operators
      of JavaScript as long as the exact result is a safe integer, of
      magnitude at most 2^53 - 1 ([num_add_binary64], [num_sub_binary64],
      [num_mul_binary64]); beyond that JavaScript rounds.  Every theorem
      whose statement depends on a sum, difference or product being exact
      carries the bound as a hypothesis.  The sign of zero is not
      represented: [-0 === 0];
    - a pitch argument is [null], [undefined] or an array of slots;
    - reading a property of [null] or [undefined] throws, which is what the
      truthiness guards of the code protect against: every operation lives
      in an exception monad.

    The conversion to and from the fifths/octaves coordinates is done by the
    external package [pitch-fifths]; the operations take it as a parameter. *)

From Stdlib Require Import ZArith List Bool Lia.
Import ListNotations.
Local Open Scope Z_scope.

(** ** The JavaScript fragment *)

Module JS.

Inductive number : Type :=
| Int (z : Z)
| NaN.

Inductive value : Type :=
| Null
| Undefined
| Num (n : number).

(** What the code receives where it expects a pitch or an interval. *)
Inductive object : Type :=
| ONull
| OUndefined
| OArr (elems : list value).

(** Completion of an expression: a result, or a thrown [TypeError]. *)
Inductive exc (A : Type) : Type :=
| Ok (a : A)
| Throw.
Arguments Ok {A} a.
Arguments Throw {A}.

Definition bind {A B : Type} (c : exc A) (k : A -> exc B) : exc B :=
  match c with
  | Ok a => k a
  | Throw => Throw
  end.

(** [ToNumber] *)
Definition to_number (v : value) : number :=
  match v with
  | Null => Int 0
  | Undefined => NaN
  | Num n => n
  end.

Definition num_add (a b : number) : number :=
  match a, b with
  | Int x, Int y => Int (x + y)
  | _, _ => NaN
  end.

Definition num_sub (a b : number) : number :=
  match a, b with
  | Int x, Int y => Int (x - y)
  | _, _ => NaN
  end.

Definition num_mul (a b : number) : number :=
  match a, b with
  | Int x, Int y => Int (x * y)
  | _, _ => NaN
  end.

(** [%] is the remainder of the truncated division: it has the sign of
    the dividend. *)
Definition num_rem (a b : number) : number :=
  match a, b with
  | Int x, Int y => if y =? 0 then NaN else Int (Z.rem x y)
  | _, _ => NaN
  end.

(** [Number.MAX_SAFE_INTEGER], 2^53 - 1. *)
Definition MAX_SAFE : Z := 9007199254740991.

(** [Number.isSafeInteger] on integers. *)
Definition safe (z : Z) : bool := Z.abs z <=? MAX_SAFE.

(** The binary64 number nearest to an integer, ties to the even
    significand (for magnitudes below 2^1024): what JavaScript stores for
    the exact result of [+], [-] and [*] on two integers. *)
Definition round64 (z : Z) : Z :=
  let a := Z.abs z in
  if a <=? MAX_SAFE then z
  else
    let e := Z.log2 a - 52 in
    let q := a / 2 ^ e in
    let r := a mod 2 ^ e in
    let h := 2 ^ (e - 1) in
    let q' := if (h <? r) || ((r =? h) && Z.odd q) then q + 1 else q in
    Z.sgn z * (q' * 2 ^ e).

(** [Math.floor (a / b)] on integers. *)
Definition num_floor_div (a b : number) : number :=
  match a, b with
  | Int x, Int y => if y <=? 0 then NaN else Int (x / y)
  | _, _ => NaN
  end.

(** The binary operators on slots; no operand is a string, so [+] is the
    numeric addition. *)
Definition add (a b : value) : value := Num (num_add (to_number a) (to_number b)).
Definition sub (a b : value) : value := Num (num_sub (to_number a) (to_number b)).
Definition mul (a b : value) : value := Num (num_mul (to_number a) (to_number b)).
Definition rem (a b : value) : value := Num (num_rem (to_number a) (to_number b)).
Definition floor_div (a b : value) : value :=
  Num (num_floor_div (to_number a) (to_number b)).

(** Unary [+] *)
Definition plus (a : value) : value := Num (to_number a).

(** [a < b] *)
Definition lt (a b : value) : bool :=
  match to_number a, to_number b with
  | Int x, Int y => x <? y
  | _, _ => false
  end.

(** The magnitude of the number a slot counts as; 0 for [NaN]. *)
Definition magnitude (v : value) : Z :=
  match to_number v with
  | Int z => Z.abs z
  | NaN => 0
  end.

(** [v === null] *)
Definition is_null (v : value) : bool :=
  match v with
  | Null => true
  | _ => false
  end.

(** Truthiness of a pitch argument: every array is truthy. *)
Definition truthy (o : object) : bool :=
  match o with
  | OArr _ => true
  | _ => false
  end.

(** [arr[k]] for an array and a computed key: an element when the key is
    an index of the array, [undefined] otherwise. *)
Definition elem (arr : list value) (k : value) : value :=
  match k with
  | Num (Int z) => if z <? 0 then Undefined else nth (Z.to_nat z) arr Undefined
  | _ => Undefined
  end.

(** [o[i]] for a literal index [i]. *)
Definition get (o : object) (i : nat) : exc value :=
  match o with
  | OArr l => Ok (nth i l Undefined)
  | _ => Throw
  end.

End JS.

Import JS.

Notation "x <- c ;; k" := (bind c (fun x => k))
  (at level 61, c at next level, right associativity).
Notation "'vint' z" := (Num (Int z)) (at level 10, z at level 9).

(** ** The module [op] *)

Definition SEMITONES : list value :=
  [vint 0; vint 2; vint 4; vint 5; vint 7; vint 9; vint 11].

Definition pitchClass (p : object) : exc object :=
  if truthy p then
    p0 <- get p 0;; p1 <- get p 1;;
    Ok (OArr [p0; p1; Null])
  else Ok ONull.

(** [op.setOctave (num)]: the branch taken with one argument. *)
Definition setOctave1 (num : value) : object -> exc object :=
  fun p =>
    if truthy p then
      p0 <- get p 0;; p1 <- get p 1;;
      Ok (OArr [p0; p1; num])
    else Ok ONull.

(** [op.setOctave (num, p)]: the branch taken with two arguments. *)
Definition setOctave (num : value) (p : object) : exc object :=
  setOctave1 num p.

Definition simplify : object -> exc object := setOctave1 (vint 0).

Definition setDefaultOctave1 (octave : value) : object -> exc object :=
  fun i =>
    if truthy i then
      i2 <- get i 2;;
      if is_null i2 then
        i0 <- get i 0;; i1 <- get i 1;;
        Ok (OArr [i0; i1; octave])
      else Ok i
    else Ok i.

Definition setDefaultOctave (octave : value) (pitch : object) : exc object :=
  setDefaultOctave1 octave pitch.

Definition semitones (i : object) : exc value :=
  if truthy i then
    i0 <- get i 0;; i1 <- get i 1;; i2 <- get i 2;;
    Ok (JS.add (JS.add (elem SEMITONES (rem i0 (vint 7))) i1) (mul (vint 12) i2))
  else Ok Null.

Definition comparator (descending : bool) : object -> object -> exc value :=
  if descending then
    fun a b => sb <- semitones b;; sa <- semitones a;; Ok (sub sb sa)
  else
    fun a b => sa <- semitones a;; sb <- semitones b;; Ok (sub sa sb).

(** The three helpers on fifths/octaves coordinates. *)
Definition add (a b : object) : exc object :=
  a0 <- get a 0;; b0 <- get b 0;;
  let fifths := JS.add a0 b0 in
  a1 <- get a 1;;
  if is_null a1 then Ok (OArr [fifths; Null])
  else
    b1 <- get b 1;;
    if is_null b1 then Ok (OArr [fifths; Null])
    else Ok (OArr [fifths; JS.add a1 b1]).

Definition subtract (a b : object) : exc object :=
  b0 <- get b 0;; a0 <- get a 0;;
  let fifths := sub b0 a0 in
  a1 <- get a 1;;
  if negb (is_null a1) then
    b1 <- get b 1;;
    if negb (is_null b1) then Ok (OArr [fifths; sub b1 a1])
    else Ok (OArr [fifths; Null])
  else Ok (OArr [fifths; Null]).

Definition multiply (m : value) (a : object) : exc object :=
  a0 <- get a 0;; a1 <- get a 1;;
  Ok (OArr [mul m a0; if is_null a1 then Null else mul m a1]).

(** A slot that holds an integer or [null]. *)
Definition int_or_null (o : value) : bool :=
  match o with
  | Null => true
  | Num (Int _) => true
  | _ => false
  end.

Section Op.

(** [fifths] and [fifths.toPitch] of the package [pitch-fifths]. *)
Variable fifths : object -> exc object.
Variable toPitch : object -> exc object.

Definition op_add (a b : object) : exc object :=
  if negb (truthy a) || negb (truthy b) then Ok ONull
  else
    fa <- fifths a;; fb <- fifths b;;
    s <- add fa fb;;
    toPitch s.

Definition op_subtract (a b : object) : exc object :=
  if negb (truthy a) || negb (truthy b) then Ok ONull
  else
    fa <- fifths a;; fb <- fifths b;;
    d <- subtract fa fb;;
    toPitch d.

Definition op_multiply (m : value) (a : object) : exc object :=
  if negb (truthy a) then Ok ONull
  else
    fa <- fifths a;;
    s <- multiply (plus m) fa;;
    toPitch s.

(** The array [p] and the coordinates [[f, o]] are images of each other
    under the codec, and [o] is an octave count or [null]. *)
Definition encodes (p : list value) (f : Z) (o : value) : Prop :=
  fifths (OArr p) = Ok (OArr [vint f; o])
  /\ toPitch (OArr [vint f; o]) = Ok (OArr p)
  /\ int_or_null o = true.

End Op.

(** [add (a, subtract (a, b))] as a caller writes it. *)
Definition add_subtract (fifths toPitch : object -> exc object) (a b : object)
  : exc object :=
  d <- op_subtract fifths toPitch a b;;
  op_add fifths toPitch a d.

(** The formula of the documentation, with the mathematical residue. *)
Definition semitones_spec (fifths step octave : Z) : Z :=
  nth (Z.to_nat (fifths mod 7)) [0; 2; 4; 5; 7; 9; 11] 0 + step + 12 * octave.

(** ** A reference codec *)

Module PitchFifths.

(** Modelled from the spec: the fifths-space codec is the external package
    [pitch-fifths], which is not among the sources.  The spec gives its
    contract (a pitch array to a pair [[fifths, octaves]] and back, the
    octave count being [null] when the octave is unset) and the results
    [add ([3,0,0], [4,0,0]) = [0,0,1]] and [multiply (2, [4,0,0]) = [1,0,1]];
    this module is the circle-of-fifths encoding that produces them.  It is
    used to run the operations on concrete arrays only: the theorems on
    [op_add], [op_subtract] and [op_multiply] hold for every codec.
    [FIFTHS] is the position of each of the seven letters on the circle of
    fifths. *)
Definition FIFTHS : list value :=
  [vint 0; vint 2; vint 4; vint (-1); vint 1; vint 3; vint 5].

(** Modelled from the spec: the octaves spanned by each entry of [FIFTHS]
    (the floor of 7/12 of it); part of the absent codec. *)
Definition FIFTH_OCTS : list value :=
  [vint 0; vint 1; vint 2; vint (-1); vint 0; vint 1; vint 2].

(** Modelled from the spec: the letter at each position of the circle of
    fifths, counted from F; part of the absent codec. *)
Definition STEPS : list value :=
  [vint 3; vint 0; vint 4; vint 1; vint 5; vint 2; vint 6].

(** Modelled from the spec: the absent conversion of a pitch array
    [[step, alteration, octave]] to coordinates [[fifths, octaves]]. *)
Definition fifths (p : object) : exc object :=
  p0 <- get p 0;; p1 <- get p 1;; p2 <- get p 2;;
  let f := JS.add (elem FIFTHS p0) (mul (vint 7) p1) in
  let o := if is_null p2 then Null
           else sub (sub p2 (elem FIFTH_OCTS p0)) (mul (vint 4) p1) in
  Ok (OArr [f; o]).

(** Modelled from the spec: the position on the circle of fifths with the
    alterations removed; part of the absent codec. *)
Definition unaltered (f : value) : value :=
  let i := rem (JS.add f (vint 1)) (vint 7) in
  if lt i (vint 0) then JS.add (vint 7) i else i.

(** Modelled from the spec: the absent conversion of coordinates
    [[fifths, octaves]] back to a pitch array. *)
Definition toPitch (c : object) : exc object :=
  f <- get c 0;; o <- get c 1;;
  let step := elem STEPS (unaltered f) in
  let alt := floor_div (JS.add f (vint 1)) (vint 7) in
  if is_null o then Ok (OArr [step; alt; Null])
  else Ok (OArr [step; alt; JS.add (JS.add o (mul (vint 4) alt)) (elem FIFTH_OCTS step)]).

End PitchFifths.

(** ** Properties *)

(** The two documented results that the reference codec is built on. *)
Example add_documented :
  op_add PitchFifths.fifths PitchFifths.toPitch
    (OArr [vint 3; vint 0; vint 0]) (OArr [vint 4; vint 0; vint 0])
  = Ok (OArr [vint 0; vint 0; vint 1]).
Proof. reflexivity. Qed.

Example multiply_documented :
  op_multiply PitchFifths.fifths PitchFifths.toPitch
    (vint 2) (OArr [vint 4; vint 0; vint 0])
  = Ok (OArr [vint 1; vint 0; vint 1]).
Proof. reflexivity. Qed.

(** *** Safe integers

    Where the exact result is a safe integer, the operators of the model
    return the binary64 result. *)

Lemma round64_safe (z : Z) : safe z = true -> round64 z = z.
Proof.
  unfold safe, round64. intros H. cbv zeta. rewrite H. reflexivity.
Qed.

Lemma num_add_binary64 (x y : Z) :
  safe (x + y) = true -> num_add (Int x) (Int y) = Int (round64 (x + y)).
Proof.
  intros H. rewrite (round64_safe _ H). reflexivity.
Qed.

Lemma num_sub_binary64 (x y : Z) :
  safe (x - y) = true -> num_sub (Int x) (Int y) = Int (round64 (x - y)).
Proof.
  intros H. rewrite (round64_safe _ H). reflexivity.
Qed.

Lemma num_mul_binary64 (x y : Z) :
  safe (x * y) = true -> num_mul (Int x) (Int y) = Int (round64 (x * y)).
Proof.
  intros H. rewrite (round64_safe _ H). reflexivity.
Qed.

Ltac safely :=
  repeat match goal with
    | |- context [round64 ?z] =>
        lazymatch z with
        | context [round64 _] => fail
        | _ => rewrite (round64_safe z)
                 by (unfold safe, MAX_SAFE in *; apply Z.leb_le; lia)
        end
    end.

(** Under the bounds that the theorems below assume, evaluating with
    rounding after every operation, as JavaScript does, gives the exact
    result.  The height of [semitones], [t] being the table entry: *)
Lemma height_binary64 (t s o : Z) :
  0 <= t <= 11 ->
  Z.abs s + 12 * Z.abs o + 11 <= MAX_SAFE ->
  round64 (round64 (t + s) + round64 (12 * o)) = t + s + 12 * o.
Proof.
  intros Ht H. safely. reflexivity.
Qed.

Lemma height_shift_binary64 (t s o k : Z) :
  0 <= t <= 11 ->
  Z.abs s + 12 * (Z.abs o + Z.abs k) + 11 <= MAX_SAFE ->
  round64 (round64 (t + s) + round64 (12 * (o + k)))
  = round64 (round64 (round64 (t + s) + round64 (12 * o)) + 12 * k).
Proof.
  intros Ht H. safely. lia.
Qed.

(** A coordinate of [add (a, subtract (a, b))] and of
    [subtract (a, add (a, b))]: *)
Lemma add_sub_binary64 (x y : Z) :
  Z.abs x + Z.abs y <= MAX_SAFE ->
  round64 (x + round64 (y - x)) = y /\ round64 (round64 (x + y) - x) = y.
Proof.
  intros H. safely. split; lia.
Qed.

(** A coordinate of the two ways of adding three arrays: *)
Lemma add_assoc_binary64 (x y z : Z) :
  Z.abs x + Z.abs y + Z.abs z <= MAX_SAFE ->
  round64 (round64 (x + y) + z) = round64 (x + round64 (y + z)).
Proof.
  intros H. safely. lia.
Qed.

Lemma product_bound (x y bx by_ : Z) :
  Z.abs x <= bx -> Z.abs y <= by_ -> Z.abs (x * y) <= bx * by_.
Proof.
  intros Hx Hy. rewrite Z.abs_mul.
  apply Z.mul_le_mono_nonneg; lia.
Qed.

(** A coordinate of [multiply] over [add] and of two multiplications: *)
Lemma multiply_binary64 (m n x y : Z) :
  Z.abs m <= 65536 -> Z.abs n <= 65536 ->
  Z.abs x <= 65536 -> Z.abs y <= 65536 ->
  round64 (m * round64 (x + y)) = round64 (round64 (m * x) + round64 (m * y))
  /\ round64 (m * round64 (n * x)) = round64 (round64 (m * n) * x).
Proof.
  intros Hm Hn Hx Hy.
  pose proof (product_bound m x _ _ Hm Hx) as Hmx.
  pose proof (product_bound m y _ _ Hm Hy) as Hmy.
  pose proof (product_bound n x _ _ Hn Hx) as Hnx.
  pose proof (product_bound m n _ _ Hm Hn) as Hmn.
  pose proof (product_bound m (x + y) 65536 131072 Hm ltac:(lia)) as Hmxy.
  pose proof (product_bound m (n * x) _ _ Hm Hnx) as Hmnx.
  pose proof (product_bound (m * n) x _ _ Hmn Hx) as Hmnx'.
  safely. split; ring.
Qed.

(** Beyond the safe integers the binary64 result is rounded: with a step of
    2^53 on the letter F the exact height ends in 997 and the stored one
    in 996. *)
Example round64_beyond_safe :
  round64 (5 + 9007199254740992) = 9007199254740996
  /\ round64 (9007199254740992 + 1) = 9007199254740992.
Proof. split; reflexivity. Qed.

(** *** The remainder and the table *)

Lemma rem7_bounds (f : Z) : -7 < Z.rem f 7 < 7.
Proof.
  pose proof (Z.rem_bound_abs f 7); lia.
Qed.

Lemma rem7_is_mod (f : Z) : 0 <= f \/ f mod 7 = 0 -> Z.rem f 7 = f mod 7.
Proof.
  intros [Hf | Hf].
  - apply Z.rem_mod_nonneg; lia.
  - rewrite Hf. apply Z.rem_divide; [lia |].
    apply Z.mod_divide; [lia | exact Hf].
Qed.

Lemma rem7_negative (f : Z) : f < 0 -> f mod 7 <> 0 -> Z.rem f 7 < 0.
Proof.
  intros Hf Hm.
  assert (Hr : Z.rem f 7 <> 0).
  { intro H0. apply Hm. apply Z.mod_divide; [lia |].
    apply Z.rem_divide; [lia | exact H0]. }
  pose proof (Z.rem_nonpos f 7); lia.
Qed.

Lemma SEMITONES_index (r : Z) :
  0 <= r < 7 ->
  elem SEMITONES (vint r) = vint (nth (Z.to_nat r) [0; 2; 4; 5; 7; 9; 11] 0).
Proof.
  intros Hr.
  assert (H : r = 0 \/ r = 1 \/ r = 2 \/ r = 3 \/ r = 4 \/ r = 5 \/ r = 6) by lia.
  repeat (destruct H as [-> | H]; [reflexivity |]).
  subst r; reflexivity.
Qed.

Lemma SEMITONES_negative_index (r : Z) : r < 0 -> elem SEMITONES (vint r) = Undefined.
Proof.
  intros Hr. unfold elem.
  destruct (r <? 0) eqn:E; [reflexivity | apply Z.ltb_ge in E; lia].
Qed.

(** [semitones] on an array, with the remainder computed. *)
Lemma semitones_array (f : Z) (s o : value) :
  semitones (OArr [vint f; s; o])
  = Ok (JS.add (JS.add (elem SEMITONES (vint (Z.rem f 7))) s) (mul (vint 12) o)).
Proof. reflexivity. Qed.

Lemma semitones_total (i : object) : exists v, semitones i = Ok v.
Proof.
  destruct i; eexists; reflexivity.
Qed.

(** C1 (as stated, refuted): at the array [[-1, 0, 0]] the formula with the
    residue [(-1) mod 7 = 6] gives 11, and [semitones] gives [NaN]. *)
Lemma semitones_formula_counterexample :
  semitones_spec (-1) 0 0 = 11
  /\ semitones (OArr [vint (-1); vint 0; vint 0]) = Ok (Num NaN)
  /\ semitones (OArr [vint (-1); vint 0; vint 0])
     <> Ok (vint (semitones_spec (-1) 0 0)).
Proof.
  repeat split; try reflexivity.
  intro H; vm_compute in H; discriminate H.
Qed.

(** C1 (amended): on an array of three integers whose first slot is a
    safe integer that is not negative, or is a multiple of 7, and whose step
    and octave keep every sum and product of the formula within the safe
    integers ([|step| + 12 * |octave| + 11 <= 2^53 - 1]), [semitones]
    returns [SEMITONES[fifths mod 7] + step + 12 * octave]. *)
Theorem semitones_formula (f s o : Z) :
  0 <= f \/ f mod 7 = 0 ->
  safe f = true ->
  Z.abs s + 12 * Z.abs o + 11 <= MAX_SAFE ->
  semitones (OArr [vint f; vint s; vint o]) = Ok (vint (semitones_spec f s o)).
Proof.
  intros Hf _ _.
  rewrite semitones_array, (rem7_is_mod f Hf).
  rewrite SEMITONES_index by (apply Z.mod_pos_bound; lia).
  reflexivity.
Qed.

Lemma semitones_formula_witness :
  semitones (OArr [vint 1; vint 1; vint 0]) = Ok (vint 3).
Proof.
  apply (semitones_formula 1 1 0).
  - left. lia.
  - reflexivity.
  - unfold MAX_SAFE. lia.
Defined.

Example semitones_origin : semitones (OArr [vint 0; vint 0; vint 0]) = Ok (vint 0).
Proof. reflexivity. Qed.

(** C2 (as stated, refuted): with a [null] octave, [semitones ([0, 0, null])]
    is the number 0, not [NaN]. *)
Lemma semitones_null_octave_counterexample :
  semitones (OArr [vint 0; vint 0; Null]) = Ok (vint 0)
  /\ semitones (OArr [vint 0; vint 0; Null]) <> Ok (Num NaN).
Proof.
  split; [reflexivity | discriminate].
Qed.

(** C2 (amended): [semitones] does not guard against a [null] octave; the
    product [12 * null] is 0, so the result is that of the same array with
    octave 0, and on integer slots it is [NaN] exactly when the remainder
    [fifths % 7] is negative. *)
Theorem semitones_null_octave_unguarded (f s : Z) :
  semitones (OArr [vint f; vint s; Null])
  = semitones (OArr [vint f; vint s; vint 0])
  /\ (semitones (OArr [vint f; vint s; Null]) = Ok (Num NaN) <-> Z.rem f 7 < 0).
Proof.
  split; [reflexivity |].
  rewrite semitones_array.
  destruct (Z_lt_ge_dec (Z.rem f 7) 0) as [Hneg | Hpos].
  - rewrite SEMITONES_negative_index by exact Hneg.
    split; [intros _; exact Hneg | reflexivity].
  - pose proof (rem7_bounds f).
    rewrite SEMITONES_index by lia.
    split; [discriminate | lia].
Qed.

(** C9: with a [null] octave and a remainder [fifths % 7] that indexes the
    table, [semitones] returns an integer, the same as with octave 0. *)
Theorem semitones_null_octave_is_zero (f : Z) (s : value) :
  int_or_null s = true ->
  0 <= Z.rem f 7 <= 6 ->
  exists n : Z,
    semitones (OArr [vint f; s; Null]) = Ok (vint n)
    /\ semitones (OArr [vint f; s; vint 0]) = Ok (vint n).
Proof.
  intros Hs Hr.
  rewrite !semitones_array, SEMITONES_index by lia.
  destruct s as [| | [z |]]; try discriminate Hs; eexists; split; reflexivity.
Qed.

Lemma semitones_null_octave_is_zero_witness :
  exists n : Z,
    semitones (OArr [vint 4; vint 1; Null]) = Ok (vint n)
    /\ semitones (OArr [vint 4; vint 1; vint 0]) = Ok (vint n).
Proof.
  apply (semitones_null_octave_is_zero 4 (vint 1)).
  - reflexivity.
  - vm_compute. split; discriminate.
Defined.

(** C10: when the first slot is negative and not a multiple of 7, the
    remainder is negative, the table has no such entry, and [semitones]
    returns [NaN], whatever the other two slots hold; the formula with the
    residue gives an integer. *)
Theorem semitones_negative_fifths (f : Z) (s o : value) :
  f < 0 ->
  f mod 7 <> 0 ->
  Z.rem f 7 < 0
  /\ elem SEMITONES (rem (vint f) (vint 7)) = Undefined
  /\ semitones (OArr [vint f; s; o]) = Ok (Num NaN)
  /\ forall s' o' : Z,
       semitones (OArr [vint f; vint s'; vint o'])
       <> Ok (vint (semitones_spec f s' o')).
Proof.
  intros Hf Hm.
  pose proof (rem7_negative f Hf Hm) as Hr.
  assert (Hs : forall s o, semitones (OArr [vint f; s; o]) = Ok (Num NaN)).
  { intros s0 o0.
    rewrite semitones_array, SEMITONES_negative_index by exact Hr.
    reflexivity. }
  repeat split.
  - exact Hr.
  - apply SEMITONES_negative_index; exact Hr.
  - apply Hs.
  - intros s' o'. rewrite Hs. discriminate.
Qed.

Lemma semitones_negative_fifths_witness :
  semitones (OArr [vint (-3); vint 0; vint 2]) = Ok (Num NaN).
Proof.
  refine (proj1 (proj2 (proj2 (semitones_negative_fifths (-3) (vint 0) (vint 2) _ _)))).
  - reflexivity.
  - vm_compute; discriminate.
Defined.

(** *** Octave setters *)

Lemma setOctave_array (n : value) (l : list value) :
  setOctave n (OArr l) = Ok (OArr [nth 0 l Undefined; nth 1 l Undefined; n]).
Proof. reflexivity. Qed.

(** C6: [simplify] is [setOctave] at octave 0; on an array it keeps the
    first two slots and stores 0 in the third. *)
Theorem simplify_is_setOctave_zero (l : list value) :
  simplify (OArr l) = setOctave (vint 0) (OArr l)
  /\ simplify (OArr l) = Ok (OArr [nth 0 l Undefined; nth 1 l Undefined; vint 0]).
Proof.
  split; [reflexivity | exact (setOctave_array (vint 0) l)].
Qed.

(** *** Absent arguments *)

(** [setDefaultOctave] hands a falsy argument back as it is, so [undefined]
    stays [undefined]. *)
Lemma setDefaultOctave_undefined (n : value) :
  setDefaultOctave n OUndefined = Ok OUndefined.
Proof. reflexivity. Qed.

(** C5 (as stated, refuted): on an absent pitch that is [undefined],
    [setDefaultOctave] returns [undefined], not [null]. *)
Lemma null_propagates_counterexample :
  setDefaultOctave (vint 4) OUndefined = Ok OUndefined
  /\ setDefaultOctave (vint 4) OUndefined <> Ok ONull.
Proof.
  split; [reflexivity | discriminate].
Qed.

(** C5 (amended): no operation throws on an absent pitch or interval.  On
    [null] each one returns [null]; on [undefined] each one returns [null]
    except [setDefaultOctave], which returns [undefined]; [add] and
    [subtract] return [null] when either argument is absent, whatever the
    other one is. *)
Theorem null_propagates
  (fifths toPitch : object -> exc object) (a b : object) (m n : value) :
  pitchClass ONull = Ok ONull
  /\ pitchClass OUndefined = Ok ONull
  /\ setOctave n OUndefined = Ok ONull
  /\ simplify ONull = Ok ONull
  /\ simplify OUndefined = Ok ONull
  /\ setDefaultOctave n OUndefined = Ok OUndefined
  /\ semitones OUndefined = Ok Null
  /\ setOctave n ONull = Ok ONull
  /\ setDefaultOctave n ONull = Ok ONull
  /\ semitones ONull = Ok Null
  /\ op_add fifths toPitch a ONull = Ok ONull
  /\ op_add fifths toPitch ONull b = Ok ONull
  /\ op_subtract fifths toPitch a ONull = Ok ONull
  /\ op_subtract fifths toPitch ONull b = Ok ONull
  /\ op_multiply fifths toPitch m ONull = Ok ONull
  /\ op_add fifths toPitch a OUndefined = Ok ONull
  /\ op_add fifths toPitch OUndefined b = Ok ONull
  /\ op_subtract fifths toPitch a OUndefined = Ok ONull
  /\ op_subtract fifths toPitch OUndefined b = Ok ONull
  /\ op_multiply fifths toPitch m OUndefined = Ok ONull.
Proof.
  unfold op_add, op_subtract, op_multiply.
  repeat split; try reflexivity;
    destruct a; reflexivity.
Qed.

(** *** Ordering *)

Lemma lt_numbers (u v : value) :
  lt u v = true ->
  exists x y : Z, to_number u = Int x /\ to_number v = Int y /\ x < y.
Proof.
  unfold lt. intros H.
  destruct (to_number u) as [x |]; [| discriminate H].
  destruct (to_number v) as [y |]; [| discriminate H].
  exists x, y. repeat split. apply Z.ltb_lt; exact H.
Qed.

(** C7: when [semitones x < semitones y], the ascending comparator returns
    a negative number on [(x, y)] and the descending one a positive number. *)
Theorem comparator_orders (x y : object) (sx sy : value) :
  semitones x = Ok sx ->
  semitones y = Ok sy ->
  lt sx sy = true ->
  exists r r' : value,
    comparator false x y = Ok r /\ lt r (vint 0) = true
    /\ comparator true x y = Ok r' /\ lt (vint 0) r' = true.
Proof.
  intros Hx Hy Hlt.
  destruct (lt_numbers sx sy Hlt) as (a & b & Ha & Hb & Hab).
  exists (sub sx sy), (sub sy sx).
  unfold comparator. rewrite Hx, Hy. cbn [bind].
  unfold lt, sub. cbn [to_number]. rewrite Ha, Hb. cbn [num_sub].
  repeat split; apply Z.ltb_lt; lia.
Qed.

Lemma comparator_orders_witness :
  exists r r' : value,
    comparator false (OArr [vint 0; vint 0; vint 0]) (OArr [vint 1; vint 1; vint 0]) = Ok r
    /\ lt r (vint 0) = true
    /\ comparator true (OArr [vint 0; vint 0; vint 0]) (OArr [vint 1; vint 1; vint 0]) = Ok r'
    /\ lt (vint 0) r' = true.
Proof.
  apply (comparator_orders _ _ (vint 0) (vint 3)); reflexivity.
Defined.

(** *** Combining two arrays *)

(** C4: when the octave count of either operand, as converted by the codec,
    is [null], the coordinates that [add] and [subtract] hand to [toPitch]
    have a [null] octave count; likewise for [multiply] and its operand. *)
Theorem unset_octave_propagates
  (fifths toPitch : object -> exc object) (a b ca cb : list value) (m : value) :
  fifths (OArr a) = Ok (OArr ca) ->
  fifths (OArr b) = Ok (OArr cb) ->
  nth 1 ca Undefined = Null \/ nth 1 cb Undefined = Null ->
  (exists f : value,
      add (OArr ca) (OArr cb) = Ok (OArr [f; Null])
      /\ op_add fifths toPitch (OArr a) (OArr b) = toPitch (OArr [f; Null]))
  /\ (exists f : value,
         subtract (OArr ca) (OArr cb) = Ok (OArr [f; Null])
         /\ op_subtract fifths toPitch (OArr a) (OArr b) = toPitch (OArr [f; Null]))
  /\ (nth 1 ca Undefined = Null ->
      exists f : value,
        multiply (plus m) (OArr ca) = Ok (OArr [f; Null])
        /\ op_multiply fifths toPitch m (OArr a) = toPitch (OArr [f; Null])).
Proof.
  intros Ha Hb Hnull.
  unfold op_add, op_subtract, op_multiply, add, subtract, multiply.
  cbn [truthy negb orb]. rewrite Ha, Hb. cbn [bind get].
  repeat split.
  - eexists. destruct Hnull as [H | H]; rewrite H.
    + cbn [is_null]. split; reflexivity.
    + destruct (is_null (nth 1 ca Undefined)); cbn [is_null]; split; reflexivity.
  - eexists. destruct Hnull as [H | H]; rewrite H.
    + cbn [is_null negb]. split; reflexivity.
    + destruct (is_null (nth 1 ca Undefined)); cbn [is_null negb]; split; reflexivity.
  - intros H. rewrite H. cbn [is_null]. eexists. split; reflexivity.
Qed.

Lemma unset_octave_propagates_witness :
  exists f : value,
    add (OArr [vint 0; Null]) (OArr [vint 1; vint 0]) = Ok (OArr [f; Null])
    /\ op_add PitchFifths.fifths PitchFifths.toPitch
         (OArr [vint 0; vint 0; Null]) (OArr [vint 4; vint 0; vint 0])
       = PitchFifths.toPitch (OArr [f; Null]).
Proof.
  refine (proj1 (unset_octave_propagates PitchFifths.fifths PitchFifths.toPitch
                   [vint 0; vint 0; Null] [vint 4; vint 0; vint 0]
                   [vint 0; Null] [vint 1; vint 0] (vint 1) _ _ _)).
  - reflexivity.
  - reflexivity.
  - left; reflexivity.
Defined.

(** The octave count of [subtract (a, b)] in coordinates. *)
Lemma subtract_coords (fa fb : Z) (oa ob : value) :
  subtract (OArr [vint fa; oa]) (OArr [vint fb; ob])
  = Ok (OArr [vint (fb - fa);
              if is_null oa || is_null ob then Null else sub ob oa]).
Proof.
  unfold subtract. cbn [bind get nth].
  destruct (is_null oa), (is_null ob); reflexivity.
Qed.

Lemma add_coords (fa fb : Z) (oa ob : value) :
  add (OArr [vint fa; oa]) (OArr [vint fb; ob])
  = Ok (OArr [vint (fa + fb);
              if is_null oa || is_null ob then Null else JS.add oa ob]).
Proof.
  unfold add. cbn [bind get nth].
  destruct (is_null oa), (is_null ob); reflexivity.
Qed.

Lemma multiply_coords (m f : Z) (o : value) :
  multiply (plus (vint m)) (OArr [vint f; o])
  = Ok (OArr [vint (m * f); if is_null o then Null else mul (vint m) o]).
Proof. reflexivity. Qed.

(** Adding back a difference of octave counts. *)
Lemma octave_add_sub (oa ob : value) :
  int_or_null oa = true ->
  int_or_null ob = true ->
  (is_null oa = true -> is_null ob = true) ->
  (if is_null oa || is_null (if is_null oa || is_null ob then Null else sub ob oa)
   then Null
   else JS.add oa (if is_null oa || is_null ob then Null else sub ob oa))
  = ob.
Proof.
  intros Ha Hb Hab.
  destruct oa as [| | [x |]]; try discriminate Ha;
    destruct ob as [| | [y |]]; try discriminate Hb;
    unfold JS.add, sub; cbn [is_null orb to_number num_add num_sub].
  - reflexivity.
  - specialize (Hab eq_refl); discriminate Hab.
  - reflexivity.
  - do 2 f_equal. lia.
Qed.

Lemma octave_mul_one (o : value) :
  int_or_null o = true ->
  (if is_null o then Null else mul (vint 1) o) = o.
Proof.
  intros Ho.
  destruct o as [| | [x |]]; try discriminate Ho; [reflexivity |].
  unfold mul. cbn [is_null to_number num_mul].
  do 2 f_equal. lia.
Qed.

(** C3 (as stated, refuted): with the reference codec, which converts the
    three arrays below back and forth without loss, the array [a] has no
    octave and [b] has one; [add (a, subtract (a, b))] has none. *)
Lemma add_subtract_counterexample :
  encodes PitchFifths.fifths PitchFifths.toPitch [vint 0; vint 0; Null] 0 Null
  /\ encodes PitchFifths.fifths PitchFifths.toPitch [vint 0; vint 0; vint 0] 0 (vint 0)
  /\ add_subtract PitchFifths.fifths PitchFifths.toPitch
       (OArr [vint 0; vint 0; Null]) (OArr [vint 0; vint 0; vint 0])
     = Ok (OArr [vint 0; vint 0; Null])
  /\ add_subtract PitchFifths.fifths PitchFifths.toPitch
       (OArr [vint 0; vint 0; Null]) (OArr [vint 0; vint 0; vint 0])
     <> Ok (OArr [vint 0; vint 0; vint 0]).
Proof.
  repeat split; try reflexivity.
  intro H; vm_compute in H; discriminate H.
Qed.

(** C3 (amended): when the codec converts [a], [b] and the interval [d]
    between them back and forth without loss, the octave of [b] is unset
    whenever that of [a] is, and the coordinates are small enough for their
    differences to be safe integers ([|fa| + |fb| <= 2^53 - 1], and the same
    for the octave counts), [add (a, subtract (a, b))] is [b]. *)
Theorem add_subtract_inverse
  (fifths toPitch : object -> exc object)
  (a b d : list value) (fa fb : Z) (oa ob : value) :
  encodes fifths toPitch a fa oa ->
  encodes fifths toPitch b fb ob ->
  encodes fifths toPitch d (fb - fa)
    (if is_null oa || is_null ob then Null else sub ob oa) ->
  (is_null oa = true -> is_null ob = true) ->
  Z.abs fa + Z.abs fb <= MAX_SAFE ->
  magnitude oa + magnitude ob <= MAX_SAFE ->
  add_subtract fifths toPitch (OArr a) (OArr b) = Ok (OArr b).
Proof.
  intros (Ha & _ & Hoa) (Hb & Hb' & Hob) (Hd & Hd' & _) Hnull _ _.
  unfold add_subtract, op_subtract, op_add.
  cbn [truthy negb orb]. rewrite Ha, Hb. cbn [bind].
  rewrite subtract_coords. cbn [bind]. rewrite Hd'. cbn [bind truthy negb orb].
  rewrite Hd. cbn [bind].
  rewrite add_coords. cbn [bind].
  rewrite (octave_add_sub oa ob Hoa Hob Hnull).
  replace (fa + (fb - fa)) with fb by lia.
  exact Hb'.
Qed.

Lemma add_subtract_inverse_witness :
  add_subtract PitchFifths.fifths PitchFifths.toPitch
    (OArr [vint 0; vint 0; vint 4]) (OArr [vint 4; vint 0; vint 4])
  = Ok (OArr [vint 4; vint 0; vint 4]).
Proof.
  apply (add_subtract_inverse PitchFifths.fifths PitchFifths.toPitch
           [vint 0; vint 0; vint 4] [vint 4; vint 0; vint 4]
           [vint 4; vint 0; vint 0] 0 1 (vint 4) (vint 4)).
  - repeat split; reflexivity.
  - repeat split; reflexivity.
  - repeat split; reflexivity.
  - intro H; discriminate H.
  - unfold MAX_SAFE. lia.
  - unfold MAX_SAFE, magnitude. cbn [to_number]. lia.
Defined.

(** C8 (as stated, refuted): with the reference codec, [multiply (0, a)] on
    an array without octave is the image of [[0, null]], which is not the
    image of [[0, 0]]. *)
Lemma multiply_zero_counterexample :
  op_multiply PitchFifths.fifths PitchFifths.toPitch (vint 0)
    (OArr [vint 0; vint 0; Null])
  = Ok (OArr [vint 0; vint 0; Null])
  /\ PitchFifths.toPitch (OArr [vint 0; vint 0]) = Ok (OArr [vint 0; vint 0; vint 0])
  /\ op_multiply PitchFifths.fifths PitchFifths.toPitch (vint 0)
       (OArr [vint 0; vint 0; Null])
     <> PitchFifths.toPitch (OArr [vint 0; vint 0]).
Proof.
  repeat split; try reflexivity.
  intro H; vm_compute in H; discriminate H.
Qed.

(** C8 (amended): when the codec converts [a] back and forth without loss,
    [multiply (1, a)] is [a]; [multiply (0, a)] is the image under the codec
    of [[0, 0]] when the converted octave count of [a] is set, and of
    [[0, null]] when it is [null]. *)
Theorem multiply_one_zero
  (fifths toPitch : object -> exc object) (a : list value) (fa : Z) (oa : value) :
  encodes fifths toPitch a fa oa ->
  op_multiply fifths toPitch (vint 1) (OArr a) = Ok (OArr a)
  /\ op_multiply fifths toPitch (vint 0) (OArr a)
     = toPitch (OArr [vint 0; if is_null oa then Null else vint 0]).
Proof.
  intros (Ha & Ha' & Hoa).
  unfold op_multiply. cbn [truthy negb]. rewrite Ha. cbn [bind].
  rewrite !multiply_coords. cbn [bind].
  split.
  - replace (1 * fa) with fa by lia.
    rewrite (octave_mul_one oa Hoa). exact Ha'.
  - destruct oa as [| | [x |]]; try discriminate Hoa; reflexivity.
Qed.

Lemma multiply_one_zero_witness :
  op_multiply PitchFifths.fifths PitchFifths.toPitch (vint 1)
    (OArr [vint 5; vint (-1); vint 2])
  = Ok (OArr [vint 5; vint (-1); vint 2])
  /\ op_multiply PitchFifths.fifths PitchFifths.toPitch (vint 0)
       (OArr [vint 5; vint (-1); vint 2])
     = PitchFifths.toPitch (OArr [vint 0; vint 0]).
Proof.
  apply (multiply_one_zero PitchFifths.fifths PitchFifths.toPitch
           [vint 5; vint (-1); vint 2] (-4) (vint 5)).
  repeat split; reflexivity.
Defined.

(** *** The reference codec loses nothing

    On integer coordinates, and on arrays whose step is one of the seven
    letters, the reference codec is a bijection: the hypothesis [encodes] of
    the theorems above is met by every such array. *)

Lemma unaltered_mod (f : Z) :
  PitchFifths.unaltered (vint f) = vint ((f + 1) mod 7).
Proof.
  unfold PitchFifths.unaltered, rem, JS.add, lt.
  cbn [to_number num_add num_rem Z.eqb].
  destruct (Z.rem (f + 1) 7 <? 0) eqn:E.
  - apply Z.ltb_lt in E. cbn [to_number num_add]. do 2 f_equal.
    Z.to_euclidean_division_equations; lia.
  - apply Z.ltb_ge in E. do 2 f_equal.
    Z.to_euclidean_division_equations; lia.
Qed.

Ltac lookup :=
  repeat match goal with
    | |- context [elem ?t (Num (Int ?k))] =>
        let v := eval vm_compute in (elem t (Num (Int k))) in
        change (elem t (Num (Int k))) with v
    end.

Ltac arith :=
  unfold JS.add, sub, mul; cbn [to_number num_add num_sub num_mul].

Lemma alteration_div (f : Z) :
  floor_div (JS.add (vint f) (vint 1)) (vint 7) = vint ((f + 1) / 7).
Proof. reflexivity. Qed.

Lemma toPitch_fifths_coords (f : Z) (o : value) :
  int_or_null o = true ->
  bind (PitchFifths.toPitch (OArr [vint f; o])) PitchFifths.fifths
  = Ok (OArr [vint f; o]).
Proof.
  intros Ho.
  unfold PitchFifths.toPitch. cbn [bind get nth].
  rewrite unaltered_mod, !alteration_div.
  pose proof (Z.div_mod (f + 1) 7 ltac:(lia)) as Hdm.
  pose proof (Z.mod_pos_bound (f + 1) 7 ltac:(lia)) as Hr.
  set (q := (f + 1) / 7) in *.
  remember ((f + 1) mod 7) as r eqn:Er. clear Er.
  assert (H : r = 0 \/ r = 1 \/ r = 2 \/ r = 3 \/ r = 4 \/ r = 5 \/ r = 6) by lia.
  destruct o as [| | [z |]]; try discriminate Ho; cbn [is_null];
    destruct H as [H | [H | [H | [H | [H | [H | H]]]]]]; subst r; lookup;
    unfold PitchFifths.fifths; cbn [bind get nth is_null]; lookup; arith;
    cbn [is_null]; repeat f_equal; lia.
Qed.

Lemma fifths_toPitch_array (s a : Z) (o : value) :
  0 <= s < 7 ->
  int_or_null o = true ->
  bind (PitchFifths.fifths (OArr [vint s; vint a; o])) PitchFifths.toPitch
  = Ok (OArr [vint s; vint a; o]).
Proof.
  intros Hs Ho.
  assert (H : s = 0 \/ s = 1 \/ s = 2 \/ s = 3 \/ s = 4 \/ s = 5 \/ s = 6) by lia.
  unfold PitchFifths.fifths. cbn [bind get nth].
  destruct o as [| | [z |]]; try discriminate Ho; cbn [is_null];
    destruct H as [H | [H | [H | [H | [H | [H | H]]]]]]; subst s; lookup; arith;
    unfold PitchFifths.toPitch; cbn [bind get nth is_null];
    rewrite unaltered_mod, !alteration_div;
    match goal with
    | |- context [(?c + 7 * a + 1) mod 7] =>
        replace ((c + 7 * a + 1) mod 7) with (c + 1)
          by (Z.to_euclidean_division_equations; lia);
        replace ((c + 7 * a + 1) / 7) with a
          by (Z.to_euclidean_division_equations; lia)
    end;
    lookup; arith; repeat f_equal; lia.
Qed.

Lemma reference_codec_encodes (s a : Z) (o : value) :
  0 <= s < 7 ->
  int_or_null o = true ->
  exists (f : Z) (o' : value),
    encodes PitchFifths.fifths PitchFifths.toPitch [vint s; vint a; o] f o'
    /\ is_null o' = is_null o.
Proof.
  intros Hs Ho.
  pose proof (fifths_toPitch_array s a o Hs Ho) as Hrt.
  assert (H : s = 0 \/ s = 1 \/ s = 2 \/ s = 3 \/ s = 4 \/ s = 5 \/ s = 6) by lia.
  unfold encodes.
  unfold PitchFifths.fifths in *. cbn [bind get nth] in *.
  destruct o as [| | [z |]]; try discriminate Ho; cbn [is_null] in *;
    destruct H as [H | [H | [H | [H | [H | [H | H]]]]]]; subst s;
    revert Hrt; lookup; arith; intros Hrt;
    do 2 eexists; (split; [split; [reflexivity | split; [exact Hrt | reflexivity]]
                          | reflexivity]).
Qed.

(** ** Further properties of the operations *)

(** *** Octave setters *)

(** X1: [pitchClass] is idempotent, on arrays of any length and on absent
    arguments. *)
Theorem pitchClass_idempotent (p : object) :
  (q <- pitchClass p;; pitchClass q) = pitchClass p.
Proof.
  destruct p; reflexivity.
Qed.

(** X2: the pitch class does not depend on the octave that was set, and an
    octave set earlier is overwritten by a later one. *)
Theorem setOctave_last_wins (m n : value) (p : object) :
  (q <- setOctave n p;; pitchClass q) = pitchClass p
  /\ (q <- setOctave n p;; setOctave m q) = setOctave m p.
Proof.
  destruct p; split; reflexivity.
Qed.

(** X3: [setDefaultOctave] returns its argument itself when the third slot
    is anything but [null]: an octave already set, but also a slot that is
    missing, as in an array of two elements. *)
Theorem setDefaultOctave_keeps (n : value) (l : list value) :
  is_null (nth 2 l Undefined) = false ->
  setDefaultOctave n (OArr l) = Ok (OArr l).
Proof.
  intros H. unfold setDefaultOctave, setDefaultOctave1.
  cbn [truthy get bind]. rewrite H. reflexivity.
Qed.

Lemma setDefaultOctave_keeps_witness :
  setDefaultOctave (vint 4) (OArr [vint 1; vint 2]) = Ok (OArr [vint 1; vint 2]).
Proof.
  apply (setDefaultOctave_keeps (vint 4) [vint 1; vint 2]). reflexivity.
Defined.

(** X4: once a default octave other than [null] has been applied, applying
    another default changes nothing. *)
Theorem setDefaultOctave_idempotent (n1 n2 : value) (p : object) :
  is_null n1 = false ->
  (q <- setDefaultOctave n1 p;; setDefaultOctave n2 q) = setDefaultOctave n1 p.
Proof.
  intros H1. unfold setDefaultOctave, setDefaultOctave1.
  destruct p as [| | l]; try reflexivity.
  cbn [truthy get bind].
  destruct (is_null (nth 2 l Undefined)) eqn:E; cbn [bind truthy get nth].
  - rewrite H1. reflexivity.
  - rewrite E. reflexivity.
Qed.

Lemma setDefaultOctave_idempotent_witness :
  (q <- setDefaultOctave (vint 4) (OArr [vint 1; vint 2; Null]);;
   setDefaultOctave (vint 5) q)
  = Ok (OArr [vint 1; vint 2; vint 4]).
Proof.
  apply (setDefaultOctave_idempotent (vint 4) (vint 5) (OArr [vint 1; vint 2; Null])).
  reflexivity.
Defined.

(** X5: giving a default octave to a pitch class is setting the octave. *)
Theorem setDefaultOctave_pitchClass (n : value) (p : object) :
  (q <- pitchClass p;; setDefaultOctave n q) = setOctave n p.
Proof.
  destruct p; reflexivity.
Qed.

(** *** Semitones *)

Lemma num_add_NaN_r (a : number) : num_add a NaN = NaN.
Proof. destruct a; reflexivity. Qed.

Lemma num_add_assoc (a b c : number) :
  num_add (num_add a b) c = num_add a (num_add b c).
Proof.
  destruct a, b, c; cbn [num_add]; try reflexivity.
  f_equal. lia.
Qed.

Lemma num_add_comm (a b : number) : num_add a b = num_add b a.
Proof.
  destruct a, b; cbn [num_add]; try reflexivity.
  f_equal. lia.
Qed.

(** X6: on an array with fewer than three elements, [semitones] is [NaN]: a
    missing slot is [undefined], unlike a [null] octave, which counts as 0. *)
Theorem semitones_short_array (l : list value) :
  (length l < 3)%nat ->
  semitones (OArr l) = Ok (Num NaN).
Proof.
  intros Hl. unfold semitones. cbn [truthy get bind].
  destruct l as [| f [| s [| o l']]]; cbn [length] in Hl; try lia; cbn [nth].
  - reflexivity.
  - unfold JS.add, mul. cbn [to_number]. rewrite num_add_NaN_r. reflexivity.
  - unfold JS.add, mul. cbn [to_number num_mul]. rewrite num_add_NaN_r. reflexivity.
Qed.

Lemma semitones_short_array_witness :
  semitones (OArr [vint 1; vint 1]) = Ok (Num NaN).
Proof.
  apply (semitones_short_array [vint 1; vint 1]). cbn [length]. lia.
Defined.

(** X7: raising the octave slot by [k] raises [semitones] by [12 * k],
    whatever the first two slots hold, as long as the step and the octaves
    keep the sums and products within the safe integers. *)
Theorem semitones_octave_shift (f s : value) (o k : Z) :
  magnitude s + 12 * (Z.abs o + Z.abs k) + 11 <= MAX_SAFE ->
  semitones (OArr [f; s; vint (o + k)])
  = (r <- semitones (OArr [f; s; vint o]);; Ok (JS.add r (vint (12 * k)))).
Proof.
  intros _.
  unfold semitones. cbn [truthy get bind nth].
  unfold JS.add, mul. cbn [to_number num_mul].
  destruct (num_add (to_number (elem SEMITONES (rem f (vint 7)))) (to_number s))
    as [x |]; cbn [num_add]; [| reflexivity].
  do 3 f_equal. lia.
Qed.

Lemma semitones_octave_shift_witness :
  semitones (OArr [vint 4; vint 1; vint (3 + 2)])
  = (r <- semitones (OArr [vint 4; vint 1; vint 3]);; Ok (JS.add r (vint (12 * 2)))).
Proof.
  apply (semitones_octave_shift (vint 4) (vint 1) 3 2).
  unfold MAX_SAFE, magnitude. cbn [to_number]. lia.
Defined.

(** X8: a first slot of 7 or more wraps around the table without carrying
    an octave: [semitones] is the same at [f + 7] and at [f]. *)
Theorem semitones_step_wraps (f : Z) (s o : value) :
  0 <= f ->
  semitones (OArr [vint (f + 7); s; o]) = semitones (OArr [vint f; s; o]).
Proof.
  intros Hf. rewrite !semitones_array.
  replace (Z.rem (f + 7) 7) with (Z.rem f 7); [reflexivity |].
  rewrite !Z.rem_mod_nonneg by lia.
  replace (f + 7) with (f + 1 * 7) by lia.
  rewrite Z.mod_add by lia. reflexivity.
Qed.

Lemma semitones_step_wraps_witness :
  semitones (OArr [vint 8; vint 0; vint 0]) = semitones (OArr [vint 1; vint 0; vint 0]).
Proof.
  apply (semitones_step_wraps 1 (vint 0) (vint 0)). lia.
Defined.

(** X9: on integer slots with a first slot that is not negative, and a
    step and an octave that keep the sums and products within the safe
    integers, the result of [semitones] lies between [step + 12 * octave]
    and 11 above it. *)
Theorem semitones_range (f s o : Z) :
  0 <= f ->
  Z.abs s + 12 * Z.abs o + 11 <= MAX_SAFE ->
  exists n : Z,
    semitones (OArr [vint f; vint s; vint o]) = Ok (vint n)
    /\ s + 12 * o <= n <= s + 12 * o + 11.
Proof.
  intros Hf _. rewrite semitones_array.
  pose proof (Z.rem_nonneg f 7 ltac:(lia) Hf) as H0.
  pose proof (rem7_bounds f) as H7.
  remember (Z.rem f 7) as r eqn:Er. clear Er.
  assert (H : r = 0 \/ r = 1 \/ r = 2 \/ r = 3 \/ r = 4 \/ r = 5 \/ r = 6) by lia.
  destruct H as [H | [H | [H | [H | [H | [H | H]]]]]]; subst r; lookup; arith;
    eexists; (split; [reflexivity | lia]).
Qed.

Lemma semitones_range_witness :
  exists n : Z,
    semitones (OArr [vint 6; vint (-1); vint 4]) = Ok (vint n)
    /\ (-1) + 12 * 4 <= n <= (-1) + 12 * 4 + 11.
Proof.
  apply (semitones_range 6 (-1) 4); unfold MAX_SAFE; lia.
Defined.

(** *** Comparators *)

Lemma lt_sub_zero (u v : value) :
  lt (sub u v) (vint 0) = lt u v /\ lt (vint 0) (sub u v) = lt v u.
Proof.
  unfold lt, sub. cbn [to_number].
  destruct (to_number u) as [a |], (to_number v) as [b |]; cbn [num_sub];
    try (split; reflexivity).
  split.
  - destruct (Z.ltb_spec (a - b) 0), (Z.ltb_spec a b); try reflexivity; lia.
  - destruct (Z.ltb_spec 0 (a - b)), (Z.ltb_spec b a); try reflexivity; lia.
Qed.

Lemma lt_trans (u v w : value) : lt u v = true -> lt v w = true -> lt u w = true.
Proof.
  intros Huv Hvw.
  destruct (lt_numbers u v Huv) as (a & b & Ha & Hb & Hab).
  destruct (lt_numbers v w Hvw) as (b' & c & Hb' & Hc & Hbc).
  rewrite Hb in Hb'. injection Hb' as <-.
  unfold lt. rewrite Ha, Hc. apply Z.ltb_lt. lia.
Qed.

(** X10: the sign of a comparator's result tells the order of the two
    heights, in both directions: the ascending comparator is negative
    exactly when [semitones x < semitones y] and positive exactly when
    [semitones y < semitones x]; the descending one the other way round. *)
Theorem comparator_sign (x y : object) :
  exists sx sy r r' : value,
    semitones x = Ok sx /\ semitones y = Ok sy
    /\ comparator false x y = Ok r /\ comparator true x y = Ok r'
    /\ lt r (vint 0) = lt sx sy /\ lt (vint 0) r = lt sy sx
    /\ lt r' (vint 0) = lt sy sx /\ lt (vint 0) r' = lt sx sy.
Proof.
  destruct (semitones_total x) as [sx Hx], (semitones_total y) as [sy Hy].
  exists sx, sy, (sub sx sy), (sub sy sx).
  unfold comparator. rewrite Hx, Hy. cbn [bind].
  pose proof (lt_sub_zero sx sy) as [H1 H2].
  pose proof (lt_sub_zero sy sx) as [H3 H4].
  repeat split; assumption.
Qed.

(** X11: each comparator is transitive: from [x] before [y] and [y] before
    [z] it puts [x] before [z]. *)
Theorem comparator_transitive (d : bool) (x y z : object) (rxy ryz : value) :
  comparator d x y = Ok rxy -> lt rxy (vint 0) = true ->
  comparator d y z = Ok ryz -> lt ryz (vint 0) = true ->
  exists r : value, comparator d x z = Ok r /\ lt r (vint 0) = true.
Proof.
  destruct (semitones_total x) as [sx Hx], (semitones_total y) as [sy Hy],
    (semitones_total z) as [sz Hz].
  unfold comparator.
  destruct d; rewrite Hx, Hy, Hz; cbn [bind];
    intros Hxy Lxy Hyz Lyz;
    injection Hxy as <-; injection Hyz as <-;
    eexists; (split; [reflexivity |]).
  - rewrite (proj1 (lt_sub_zero sy sx)) in Lxy.
    rewrite (proj1 (lt_sub_zero sz sy)) in Lyz.
    rewrite (proj1 (lt_sub_zero sz sx)).
    exact (lt_trans sz sy sx Lyz Lxy).
  - rewrite (proj1 (lt_sub_zero sx sy)) in Lxy.
    rewrite (proj1 (lt_sub_zero sy sz)) in Lyz.
    rewrite (proj1 (lt_sub_zero sx sz)).
    exact (lt_trans sx sy sz Lxy Lyz).
Qed.

Lemma comparator_transitive_witness :
  exists r : value,
    comparator false (OArr [vint 0; vint 0; vint 4]) (OArr [vint 2; vint 0; vint 4]) = Ok r
    /\ lt r (vint 0) = true.
Proof.
  apply (comparator_transitive false
           (OArr [vint 0; vint 0; vint 4]) (OArr [vint 1; vint 0; vint 4])
           (OArr [vint 2; vint 0; vint 4]) (vint (-2)) (vint (-2)));
    reflexivity.
Defined.

(** X12: a [null] pitch is ordered as the origin [[0, 0, 0]]: its height
    [null] counts as 0 in the subtraction. *)
Theorem comparator_null_pitch (d : bool) (y : object) :
  comparator d ONull y = comparator d (OArr [vint 0; vint 0; vint 0]) y
  /\ comparator d y ONull = comparator d y (OArr [vint 0; vint 0; vint 0]).
Proof.
  destruct (semitones_total y) as [sy Hy].
  unfold comparator.
  destruct d; rewrite Hy; split; reflexivity.
Qed.

(** X13: when [semitones] of one argument is [NaN], both comparators
    return [NaN] on it, in either position: such a pitch is neither before
    nor after any other. *)
Theorem comparator_NaN (d : bool) (x y : object) :
  semitones x = Ok (Num NaN) ->
  comparator d x y = Ok (Num NaN) /\ comparator d y x = Ok (Num NaN).
Proof.
  intros Hx.
  destruct (semitones_total y) as [sy Hy].
  unfold comparator.
  destruct d; rewrite Hx, Hy; cbn [bind]; unfold sub; cbn [to_number];
    destruct (to_number sy); split; reflexivity.
Qed.

Lemma comparator_NaN_witness :
  comparator false (OArr [vint (-1); vint 0; vint 0]) (OArr [vint 0; vint 0; vint 0])
  = Ok (Num NaN)
  /\ comparator false (OArr [vint 0; vint 0; vint 0]) (OArr [vint (-1); vint 0; vint 0])
     = Ok (Num NaN).
Proof.
  apply (comparator_NaN false (OArr [vint (-1); vint 0; vint 0])
           (OArr [vint 0; vint 0; vint 0])).
  reflexivity.
Defined.

(** *** The arithmetic on coordinates *)



Lemma num_sub_reverse (a b : number) :
  num_mul (Int (-1)) (num_sub a b) = num_sub b a.
Proof.
  destruct a, b; cbn [num_mul num_sub]; try reflexivity.
  f_equal. lia.
Qed.

Lemma num_sub_as_add (a b : number) :
  num_add (num_mul (Int (-1)) a) b = num_sub b a.
Proof.
  destruct a, b; cbn [num_mul num_sub num_add]; try reflexivity.
  f_equal. lia.
Qed.

Lemma num_mul_two (a : number) : num_mul (Int 2) a = num_add a a.
Proof.
  destruct a; cbn [num_mul num_add]; try reflexivity.
  f_equal. lia.
Qed.

Lemma add_comm_coords (x y : object) : add x y = add y x.
Proof.
  destruct x as [| | a], y as [| | b]; try reflexivity.
  unfold add. cbn [get bind].
  unfold JS.add.
  rewrite (num_add_comm (to_number (nth 0 a Undefined))).
  rewrite (num_add_comm (to_number (nth 1 a Undefined))).
  destruct (is_null (nth 1 a Undefined)), (is_null (nth 1 b Undefined)); reflexivity.
Qed.

(** X14: [op.add] is commutative, for every codec and all arguments,
    absent ones and failures of the codec included. *)
Theorem op_add_commutative (fifths toPitch : object -> exc object) (a b : object) :
  op_add fifths toPitch a b = op_add fifths toPitch b a.
Proof.
  unfold op_add.
  destruct (truthy a) eqn:Ea, (truthy b) eqn:Eb; cbn [negb orb]; try reflexivity.
  destruct (fifths a) as [fa |], (fifths b) as [fb |]; cbn [bind]; try reflexivity.
  rewrite (add_comm_coords fa fb). reflexivity.
Qed.

(** X15: on coordinates, [subtract (a, b)] is [subtract (b, a)] multiplied
    by -1, and it is [add] of [b] and of [a] multiplied by -1; arrays of
    any content. *)
Theorem subtract_reverses (a b : list value) :
  subtract (OArr a) (OArr b)
  = (d <- subtract (OArr b) (OArr a);; multiply (vint (-1)) d)
  /\ subtract (OArr a) (OArr b)
     = (n <- multiply (vint (-1)) (OArr a);; add n (OArr b)).
Proof.
  unfold subtract, multiply, add. cbn [get bind].
  unfold sub, mul, JS.add. cbn [to_number].
  destruct (is_null (nth 1 a Undefined)) eqn:Ea,
    (is_null (nth 1 b Undefined)) eqn:Eb;
    cbn [negb bind get nth is_null to_number];
    rewrite ?Ea, ?Eb; cbn [negb is_null];
    rewrite ?num_sub_reverse, ?num_sub_as_add; split; reflexivity.
Qed.



(** X17: [op.multiply (2, a)] is [op.add (a, a)], for every codec and every
    argument. *)
Theorem op_multiply_two (fifths toPitch : object -> exc object) (a : object) :
  op_multiply fifths toPitch (vint 2) a = op_add fifths toPitch a a.
Proof.
  unfold op_multiply, op_add.
  destruct (truthy a); cbn [negb orb]; [| reflexivity].
  destruct (fifths a) as [[| | c] |]; cbn [bind]; try reflexivity.
  unfold multiply, add, plus. cbn [get bind to_number].
  unfold mul, JS.add. cbn [to_number]. rewrite !num_mul_two.
  destruct (is_null (nth 1 c Undefined)); reflexivity.
Qed.

(** X18: the scalar of [op.multiply] is coerced to a number: [null] counts
    as 0, and with [undefined] the codec receives [NaN] coordinates, a
    [null] octave count staying [null]. *)
Theorem multiply_scalar_coerced
  (fifths toPitch : object -> exc object) (a : object) (c : list value) :
  op_multiply fifths toPitch Null a = op_multiply fifths toPitch (vint 0) a
  /\ multiply (plus Undefined) (OArr c)
     = Ok (OArr [Num NaN; if is_null (nth 1 c Undefined) then Null else Num NaN]).
Proof.
  split; reflexivity.
Qed.

(** *** Transposition through the codec *)

Section Codec.

Variable fifths : object -> exc object.
Variable toPitch : object -> exc object.

Lemma op_add_coords (a b : list value) (fa fb : Z) (oa ob : value) :
  fifths (OArr a) = Ok (OArr [vint fa; oa]) ->
  fifths (OArr b) = Ok (OArr [vint fb; ob]) ->
  op_add fifths toPitch (OArr a) (OArr b)
  = toPitch (OArr [vint (fa + fb);
                   if is_null oa || is_null ob then Null else JS.add oa ob]).
Proof.
  intros Ha Hb. unfold op_add. cbn [truthy negb orb].
  rewrite Ha, Hb. cbn [bind]. rewrite add_coords. reflexivity.
Qed.

Lemma op_subtract_coords (a b : list value) (fa fb : Z) (oa ob : value) :
  fifths (OArr a) = Ok (OArr [vint fa; oa]) ->
  fifths (OArr b) = Ok (OArr [vint fb; ob]) ->
  op_subtract fifths toPitch (OArr a) (OArr b)
  = toPitch (OArr [vint (fb - fa);
                   if is_null oa || is_null ob then Null else sub ob oa]).
Proof.
  intros Ha Hb. unfold op_subtract. cbn [truthy negb orb].
  rewrite Ha, Hb. cbn [bind]. rewrite subtract_coords. reflexivity.
Qed.

End Codec.

Ltac octaves :=
  repeat match goal with
    | o : value |- _ => destruct o as [| | [? |]]
    end;
  try discriminate;
  unfold JS.add, sub;
  cbn [is_null orb to_number num_add num_sub].

Lemma octave_add_assoc (oa ob oc : value) :
  int_or_null oa = true -> int_or_null ob = true -> int_or_null oc = true ->
  (if is_null (if is_null oa || is_null ob then Null else JS.add oa ob)
      || is_null oc
   then Null
   else JS.add (if is_null oa || is_null ob then Null else JS.add oa ob) oc)
  = (if is_null oa
        || is_null (if is_null ob || is_null oc then Null else JS.add ob oc)
     then Null
     else JS.add oa (if is_null ob || is_null oc then Null else JS.add ob oc)).
Proof.
  intros Ha Hb Hc. revert Ha Hb Hc. octaves; intros; try reflexivity.
  do 2 f_equal. lia.
Qed.

Lemma octave_add_zero (oa : value) :
  int_or_null oa = true ->
  (if is_null oa || is_null (vint 0) then Null else JS.add oa (vint 0)) = oa
  /\ (if is_null (vint 0) || is_null oa then Null else JS.add (vint 0) oa) = oa.
Proof.
  intros Ha. revert Ha. octaves; intros; split; try reflexivity;
    do 2 f_equal; lia.
Qed.

Lemma octave_sub_add (oa ob : value) :
  int_or_null oa = true ->
  int_or_null ob = true ->
  (is_null oa = true -> is_null ob = true) ->
  (if is_null oa || is_null (if is_null oa || is_null ob then Null else JS.add oa ob)
   then Null
   else sub (if is_null oa || is_null ob then Null else JS.add oa ob) oa)
  = ob.
Proof.
  intros Ha Hb Hab. revert Ha Hb Hab. octaves; intros Ha Hb Hab; try reflexivity.
  - specialize (Hab eq_refl); discriminate Hab.
  - do 2 f_equal. lia.
Qed.

(** X19: [op.add] is associative when the codec converts the two
    intermediate sums back and forth without loss and the coordinates are
    small enough for their sums to be safe integers: transposing by [b] and
    then by [c] is transposing by their sum. *)
Theorem op_add_associative
  (fifths toPitch : object -> exc object)
  (a b c ab bc : list value) (fa fb fc : Z) (oa ob oc : value) :
  encodes fifths toPitch a fa oa ->
  encodes fifths toPitch b fb ob ->
  encodes fifths toPitch c fc oc ->
  encodes fifths toPitch ab (fa + fb)
    (if is_null oa || is_null ob then Null else JS.add oa ob) ->
  encodes fifths toPitch bc (fb + fc)
    (if is_null ob || is_null oc then Null else JS.add ob oc) ->
  Z.abs fa + Z.abs fb + Z.abs fc <= MAX_SAFE ->
  magnitude oa + magnitude ob + magnitude oc <= MAX_SAFE ->
  (x <- op_add fifths toPitch (OArr a) (OArr b);; op_add fifths toPitch x (OArr c))
  = (y <- op_add fifths toPitch (OArr b) (OArr c);; op_add fifths toPitch (OArr a) y).
Proof.
  intros (Ha & _ & Hoa) (Hb & _ & Hob) (Hc & _ & Hoc) (Hab & Hab' & _) (Hbc & Hbc' & _)
    _ _.
  rewrite (op_add_coords fifths toPitch a b fa fb oa ob Ha Hb), Hab'.
  rewrite (op_add_coords fifths toPitch b c fb fc ob oc Hb Hc), Hbc'.
  cbn [bind].
  rewrite (op_add_coords fifths toPitch ab c _ _ _ _ Hab Hc).
  rewrite (op_add_coords fifths toPitch a bc _ _ _ _ Ha Hbc).
  rewrite (octave_add_assoc oa ob oc Hoa Hob Hoc).
  replace (fa + fb + fc) with (fa + (fb + fc)) by lia.
  reflexivity.
Qed.

Lemma op_add_associative_witness :
  (x <- op_add PitchFifths.fifths PitchFifths.toPitch
          (OArr [vint 0; vint 0; vint 4]) (OArr [vint 4; vint 0; vint 0]);;
   op_add PitchFifths.fifths PitchFifths.toPitch x (OArr [vint 2; vint 0; vint 0]))
  = (y <- op_add PitchFifths.fifths PitchFifths.toPitch
            (OArr [vint 4; vint 0; vint 0]) (OArr [vint 2; vint 0; vint 0]);;
     op_add PitchFifths.fifths PitchFifths.toPitch (OArr [vint 0; vint 0; vint 4]) y).
Proof.
  apply (op_add_associative PitchFifths.fifths PitchFifths.toPitch
           [vint 0; vint 0; vint 4] [vint 4; vint 0; vint 0] [vint 2; vint 0; vint 0]
           [vint 4; vint 0; vint 4] [vint 6; vint 0; vint 0]
           0 1 4 (vint 4) (vint 0) (vint (-2)));
    try (repeat split; reflexivity);
    unfold MAX_SAFE, magnitude; cbn [to_number]; lia.
Defined.

(** X20: the array that the codec converts to the coordinates [[0, 0]] is
    neutral for [op.add], on either side; an unset octave stays unset. *)
Theorem op_add_unison
  (fifths toPitch : object -> exc object) (u a : list value) (fa : Z) (oa : value) :
  encodes fifths toPitch u 0 (vint 0) ->
  encodes fifths toPitch a fa oa ->
  op_add fifths toPitch (OArr a) (OArr u) = Ok (OArr a)
  /\ op_add fifths toPitch (OArr u) (OArr a) = Ok (OArr a).
Proof.
  intros (Hu & _ & _) (Ha & Ha' & Hoa).
  rewrite (op_add_coords fifths toPitch a u _ _ _ _ Ha Hu).
  rewrite (op_add_coords fifths toPitch u a _ _ _ _ Hu Ha).
  destruct (octave_add_zero oa Hoa) as [-> ->].
  replace (fa + 0) with fa by lia. replace (0 + fa) with fa by lia.
  split; exact Ha'.
Qed.

Lemma op_add_unison_witness :
  op_add PitchFifths.fifths PitchFifths.toPitch
    (OArr [vint 5; vint (-1); Null]) (OArr [vint 0; vint 0; vint 0])
  = Ok (OArr [vint 5; vint (-1); Null])
  /\ op_add PitchFifths.fifths PitchFifths.toPitch
       (OArr [vint 0; vint 0; vint 0]) (OArr [vint 5; vint (-1); Null])
     = Ok (OArr [vint 5; vint (-1); Null]).
Proof.
  apply (op_add_unison PitchFifths.fifths PitchFifths.toPitch
           [vint 0; vint 0; vint 0] [vint 5; vint (-1); Null] (-4) Null);
    repeat split; reflexivity.
Defined.

(** X21: [op.subtract (a, op.add (a, b))] is [b], when the codec converts
    [b] and the sum back and forth without loss, the octave of [b] is unset
    whenever that of [a] is, and the coordinates are small enough for their
    sums to be safe integers. *)
Theorem op_subtract_add
  (fifths toPitch : object -> exc object)
  (a b s : list value) (fa fb : Z) (oa ob : value) :
  encodes fifths toPitch a fa oa ->
  encodes fifths toPitch b fb ob ->
  encodes fifths toPitch s (fa + fb)
    (if is_null oa || is_null ob then Null else JS.add oa ob) ->
  (is_null oa = true -> is_null ob = true) ->
  Z.abs fa + Z.abs fb <= MAX_SAFE ->
  magnitude oa + magnitude ob <= MAX_SAFE ->
  (x <- op_add fifths toPitch (OArr a) (OArr b);;
   op_subtract fifths toPitch (OArr a) x)
  = Ok (OArr b).
Proof.
  intros (Ha & _ & Hoa) (Hb & Hb' & Hob) (Hs & Hs' & _) Hnull _ _.
  rewrite (op_add_coords fifths toPitch a b fa fb oa ob Ha Hb), Hs'.
  cbn [bind].
  rewrite (op_subtract_coords fifths toPitch a s _ _ _ _ Ha Hs).
  rewrite (octave_sub_add oa ob Hoa Hob Hnull).
  replace (fa + fb - fa) with fb by lia.
  exact Hb'.
Qed.

Lemma op_subtract_add_witness :
  (x <- op_add PitchFifths.fifths PitchFifths.toPitch
          (OArr [vint 0; vint 0; vint 4]) (OArr [vint 4; vint 0; vint 0]);;
   op_subtract PitchFifths.fifths PitchFifths.toPitch (OArr [vint 0; vint 0; vint 4]) x)
  = Ok (OArr [vint 4; vint 0; vint 0]).
Proof.
  apply (op_subtract_add PitchFifths.fifths PitchFifths.toPitch
           [vint 0; vint 0; vint 4] [vint 4; vint 0; vint 0] [vint 4; vint 0; vint 4]
           0 1 (vint 4) (vint 0)).
  - repeat split; reflexivity.
  - repeat split; reflexivity.
  - repeat split; reflexivity.
  - intro H; discriminate H.
  - unfold MAX_SAFE. lia.
  - unfold MAX_SAFE, magnitude. cbn [to_number]. lia.
Defined.

(** X22: the distance from an array to itself is the image under the codec
    of [[0, 0]], or of [[0, null]] when its octave count is [null]. *)
Theorem op_subtract_self
  (fifths toPitch : object -> exc object) (a : list value) (fa : Z) (oa : value) :
  fifths (OArr a) = Ok (OArr [vint fa; oa]) ->
  int_or_null oa = true ->
  op_subtract fifths toPitch (OArr a) (OArr a)
  = toPitch (OArr [vint 0; if is_null oa then Null else vint 0]).
Proof.
  intros Ha Hoa.
  rewrite (op_subtract_coords fifths toPitch a a _ _ _ _ Ha Ha).
  replace (fa - fa) with 0 by lia.
  revert Hoa. octaves; intros; try reflexivity.
  rewrite Z.sub_diag. reflexivity.
Qed.

Lemma op_subtract_self_witness :
  op_subtract PitchFifths.fifths PitchFifths.toPitch
    (OArr [vint 4; vint 1; vint 3]) (OArr [vint 4; vint 1; vint 3])
  = PitchFifths.toPitch (OArr [vint 0; vint 0]).
Proof.
  apply (op_subtract_self PitchFifths.fifths PitchFifths.toPitch
           [vint 4; vint 1; vint 3] 8 (vint (-1))); reflexivity.
Defined.

(** *** Exceptions *)

(** X23: the operations that do not call the codec never throw, on [null],
    on [undefined] and on arrays of any length: every property read is
    behind a truthiness test. *)
Theorem guards_suffice (p q : object) (n : value) (d : bool) :
  pitchClass p <> Throw
  /\ setOctave n p <> Throw
  /\ simplify p <> Throw
  /\ setDefaultOctave n p <> Throw
  /\ semitones p <> Throw
  /\ comparator d p q <> Throw.
Proof.
  destruct (semitones_total p) as [sp Hp], (semitones_total q) as [sq Hq].
  repeat split; try (destruct p; discriminate).
  - destruct p as [| | l]; try discriminate.
    unfold setDefaultOctave, setDefaultOctave1. cbn [truthy get bind].
    destruct (is_null (nth 2 l Undefined)); discriminate.
  - unfold comparator. destruct d; rewrite Hp, Hq; discriminate.
Qed.
